(** * MMLU few-shot evaluation pipeline: embedding and verification

    Shallow embedding of
      - [src/guidance_programs/zero_shot.py]
        ([zero_shot_multiple_choice], [guidance_generation]);
      - [src/azureml/pipelines/submit_mmlu_fewshot.py]
        ([PipelineConfig], [create_fewshot_pipeline], [basic_pipeline], [main]).

    Python values are modelled as follows: [str] objects are [string]s,
    [int]s are [Z], dictionaries with string keys are [gmap string _],
    lists are [list]s.  Exceptions are the [Raise] branch of [result].
    The chat model handle [lm] is a record carrying the constrained
    generation primitive of the model collaborator, the role blocks written
    so far and the captured variables; [lm += text] is state passing.
    [Guidance] holds the bodies of the two functions of [zero_shot.py];
    [Loading] holds what running the file does before any of them can
    be called, the evaluation of the annotations of its [def]
    statements. *)

From Stdlib Require Import ZArith QArith String Ascii List DecimalString DecimalZ.
From stdpp Require Import gmap strings list.

Open Scope string_scope.
Open Scope list_scope.

(* ===================================================================== *)
(** * Part I: the embedding                                               *)
(* ===================================================================== *)

(** ** Python exceptions and fallible computations *)

Inductive exn : Type :=
  | KeyError (key : string)
  | ValueError (literal : string)
  | GenerationError
  | ConfigAttributeError (field : string)
  | TypeError
  | ErrorBudgetExceeded.

Inductive result (A : Type) : Type :=
  | Ok (a : A)
  | Raise (e : exn).

Arguments Ok {A} a.
Arguments Raise {A} e.

#[global] Instance result_ret : MRet result := fun A a => Ok a.

#[global] Instance result_bind : MBind result := fun A B k c =>
  match c with
  | Ok a => k a
  | Raise e => Raise e
  end.

#[global] Instance result_fmap : FMap result := fun A B f c =>
  match c with
  | Ok a => Ok (f a)
  | Raise e => Raise e
  end.

(** ** The Python built-ins the two files use *)

Module Py.

(** The one-character string written ["\n"] in the source. *)
Definition nl : string := String (ascii_of_nat 10) EmptyString.

(** [str(z)] for an [int]: the decimal numeral, ["-"] in front of a
    negative one, no leading zero. *)
Definition str (z : Z) : string := NilZero.string_of_int (Z.to_int z).

(** The white space [int()] skips around a literal in an ASCII [str]:
    TAB, LF, VT, FF, CR and the space. *)
Definition isspace (c : ascii) : bool :=
  let n := nat_of_ascii c in
  ((9 <=? n)%nat && (n <=? 13)%nat) || (n =? 32)%nat.

Definition nonspace (c : ascii) : bool := negb (isspace c).

Definition isdigit (c : ascii) : bool :=
  let n := nat_of_ascii c in (48 <=? n)%nat && (n <=? 57)%nat.

Fixpoint lstrip (s : string) : string :=
  match s with
  | EmptyString => EmptyString
  | String c s' => if isspace c then lstrip s' else s
  end.

Fixpoint rstrip (s : string) : string :=
  match s with
  | EmptyString => EmptyString
  | String c s' =>
      match rstrip s' with
      | EmptyString => if isspace c then EmptyString else String c EmptyString
      | r => String c r
      end
  end.

Definition strip (s : string) : string := rstrip (lstrip s).

(** The digits of an integer literal: one or more digits, single
    underscores allowed between two digits.  Returns the digits with
    the underscores removed. *)
Fixpoint digit_groups (after_digit : bool) (s : string) : option string :=
  match s with
  | EmptyString => if after_digit then Some EmptyString else None
  | String c s' =>
      if isdigit c then option_map (String c) (digit_groups true s')
      else if Ascii.eqb c "_"%char
           then (if after_digit then digit_groups false s' else None)
           else None
  end.

(** [int(s)] for a [str] in base 10: surrounding white space is
    stripped, one sign is allowed, then the digits; [None] stands for
    the [ValueError] raised on anything else. *)
Definition int (s : string) : option Z :=
  match strip s with
  | EmptyString => None
  | String c s' =>
      let '(negative, body) :=
        if Ascii.eqb c "-"%char then (true, s')
        else if Ascii.eqb c "+"%char then (false, s')
        else (false, String c s') in
      match digit_groups false body with
      | None => None
      | Some ds =>
          match NilEmpty.uint_of_string ds with
          | None => None
          | Some d => Some (if negative then (- Z.of_uint d)%Z else Z.of_uint d)
          end
      end
  end.

(** [int(x)] for a [float] [x]: truncation towards zero.  Every float
    is a rational number, which is how the clock reading is modelled. *)
Definition int_of_float (x : Q) : Z := Z.quot (Qnum x) (Zpos (Qden x)).

Fixpoint string_forallb (p : ascii -> bool) (s : string) : bool :=
  match s with
  | EmptyString => true
  | String c s' => p c && string_forallb p s'
  end.

(** [range(n)] and [enumerate(l)]. *)
Definition range (n : nat) : list Z := map Z.of_nat (seq 0 n).

Definition enumerate {A : Type} (l : list A) : list (Z * A) :=
  combine (range (List.length l)) l.

(** [enumerate(l, start)]: the numbering begins at [start]. *)
Definition enumerate_from {A : Type} (start : nat) (l : list A) : list (Z * A) :=
  combine (map Z.of_nat (seq start (List.length l))) l.

End Py.

(** ** [src/guidance_programs/zero_shot.py] *)

Module Guidance.
Import Py.

(** The chat turns opened by [with system():], [with user():] and
    [with assistant():]. *)
Inductive role : Type := system | user | assistant.

(** [guidance.models.Chat].  [engine] is the constrained-generation
    primitive of the model collaborator: from the blocks written so
    far and the allowed tokens it returns the chosen token, or [None]
    when the call fails (service error, timeout, or nothing to choose
    from).  [blocks] are the role blocks in the order they were
    opened, the last one being the open one; [captured] are the named
    generation results read back with [lm[name]]. *)
Record Chat : Type := mkChat {
  engine : list (role * string) -> list string -> option string;
  blocks : list (role * string);
  captured : gmap string string
}.

(** The guarantee of the primitive: the token it returns is one of the
    allowed ones. *)
Definition constrained (lm : Chat) : Prop :=
  forall prompt allowed token,
    engine lm prompt allowed = Some token -> In token allowed.

(** [with r():] opens a new, empty block for role [r]. *)
Definition enter (r : role) (lm : Chat) : Chat :=
  mkChat (engine lm) (blocks lm ++ [(r, "")])%list (captured lm).

Fixpoint append_to_last (s : string) (bs : list (role * string))
  : list (role * string) :=
  match bs with
  | [] => []
  | [(r, t)] => [(r, t +:+ s)]
  | b :: bs' => b :: append_to_last s bs'
  end.

(** [lm += s]: the text goes to the open block.  (Every [+=] of the
    program is inside a [with] block, so the list is never empty
    there.) *)
Definition iadd (lm : Chat) (s : string) : Chat :=
  mkChat (engine lm) (append_to_last s (blocks lm)) (captured lm).

Notation "lm +== s" := (iadd lm s) (at level 50, left associativity).

(** [lm += select(options, name=name)]: one call of the primitive on
    the current prompt; the chosen token is written to the open block
    and stored under [name]. *)
Definition select (options : list string) (name : string) (lm : Chat)
  : result Chat :=
  match engine lm (blocks lm) options with
  | Some token =>
      Ok (mkChat (engine lm) (append_to_last token (blocks lm))
                 (<[name := token]> (captured lm)))
  | None => Raise GenerationError
  end.

(** A value interpolated into an f-string: an [int] or a [str]. *)
Inductive value : Type :=
  | VInt (z : Z)
  | VStr (s : string).

Definition format (v : value) : string :=
  match v with
  | VInt z => str z
  | VStr s => s
  end.

(** One exemplar of the pool ([common]): the keys the program reads. *)
Record Example : Type := mkExample {
  ex_question : string;
  ex_choices : list string;
  correct_answer : value
}.

(** The question record ([input]): the keys the program reads. *)
Record Question : Type := mkQuestion {
  question : string;
  choices : list string
}.

(** Truth value of [common] in [if common:]: [None] and the empty
    list are false. *)
Definition truthy {A : Type} (common : option (list A)) : bool :=
  match common with
  | None => false
  | Some [] => false
  | Some (_ :: _) => true
  end.

Definition pool {A : Type} (common : option (list A)) : list A :=
  match common with
  | None => []
  | Some l => l
  end.

Definition preamble : string :=
  "You are a student taking a multiple choice test." +:+ nl +:+
  "You will be shown a question, followed by numbered multiple choice answers." +:+ nl +:+
  "Response with the number corresponding to the best answer.".

(** Lines 31-35: one exemplar. *)
Definition render_example (lm : Chat) (ie : Z * Example) : Chat :=
  let '(i, example) := ie in
  let lm := lm +== ("Example " +:+ str i +:+ nl) in
  let lm := lm +== (ex_question example +:+ nl) in
  let lm :=
    fold_left
      (fun lm '(j, choice) => lm +== (str j +:+ " : " +:+ choice +:+ nl))
      (enumerate (ex_choices example)) lm in
  lm +== ("Correct Answer: " +:+ format (correct_answer example)).

(** Lines 40-41: the body of the loop of the user turn. *)
Definition render_choice (lm : Chat) (ic : Z * string) : Chat :=
  let '(i, choice) := ic in
  let lm := lm +== (str i +:+ " : " +:+ choice +:+ nl) in
  lm +== "Correct Answer: ".

(** Line 44: the allowed tokens. *)
Definition allowed_tokens (choices : list string) : list string :=
  map str (range (List.length choices)).

Definition zero_shot_multiple_choice
    (lm : Chat) (question : string) (choices : list string)
    (common : option (list Example)) : result Chat :=
  let lm := enter system lm in
  let lm := lm +== preamble in
  let lm :=
    if truthy common then
      let lm := lm +== ("Here are some examples to help you:" +:+ nl +:+ nl) in
      fold_left render_example (enumerate (pool common)) lm
    else lm in
  let lm := enter user lm in
  let lm := lm +== (question +:+ nl) in
  let lm := fold_left render_choice (enumerate choices) lm in
  let lm := enter assistant lm in
  select (allowed_tokens choices) "string_choice" lm.

(** *** The text of the turns, in closed form *)

(** The cue written in front of the answer. *)
Definition answer_cue : string := "Correct Answer: ".

Definition join (l : list string) : string := fold_right String.append "" l.

Definition choice_line (ic : Z * string) : string :=
  str (fst ic) +:+ " : " +:+ snd ic +:+ nl.

Definition example_text (ie : Z * Example) : string :=
  ("Example " +:+ str (fst ie) +:+ nl) +:+
  (ex_question (snd ie) +:+ nl) +:+
  join (map choice_line (enumerate (ex_choices (snd ie)))) +:+
  ("Correct Answer: " +:+ format (correct_answer (snd ie))).

Definition examples_text (common : option (list Example)) : string :=
  if truthy common then
    ("Here are some examples to help you:" +:+ nl +:+ nl) +:+
    join (map example_text (enumerate (pool common)))
  else "".

Definition system_text (common : option (list Example)) : string :=
  preamble +:+ examples_text common.

(** The user turn as the program writes it. *)
Definition user_text (question : string) (choices : list string) : string :=
  (question +:+ nl) +:+
  join (map (fun ic => choice_line ic +:+ answer_cue) (enumerate choices)).

(** The user turn as the specification describes it: the question,
    the enumerated choices, then the answer cue once. *)
Definition user_text_spec (question : string) (choices : list string) : string :=
  (question +:+ nl) +:+
  join (map choice_line (enumerate choices)) +:+ answer_cue.

(** The prompt the model is asked to complete. *)
Definition prompt (lm : Chat) (question : string) (choices : list string)
    (common : option (list Example)) : list (role * string) :=
  (blocks lm ++
   [(system, system_text common); (user, user_text question choices);
    (assistant, "")])%list.

(** [lm[name]]. *)
Definition getitem (lm : Chat) (name : string) : result string :=
  match captured lm !! name with
  | Some v => Ok v
  | None => Raise (KeyError name)
  end.

Definition to_int (s : string) : result Z :=
  match int s with
  | Some z => Ok z
  | None => Raise (ValueError s)
  end.

Definition guidance_generation
    (lm : Chat) (input : Question) (common : option (list Example))
  : result (gmap string Z) :=
  result ← zero_shot_multiple_choice lm (question input) (choices input) common;
  string_choice ← getitem result "string_choice";
  choice ← to_int string_choice;
  mret {[ "zeroshot_choice" := choice ]}.

End Guidance.

(** ** Executing [zero_shot.py]: the [def] statements *)

Module Loading.
Import Guidance.

(** The file does not defer its annotations, so on the interpreters
    that evaluate annotations eagerly (CPython 3.10 to 3.13, which have
    the [X | Y] syntax for types) a [def] statement evaluates the
    annotations of its parameters, in order, before the function object
    exists.  The generic classes the annotations subscript: *)
Inductive generic : Type := py_list | py_dict | typing_Dict.

(** The objects an annotation expression evaluates to. *)
#[warnings="-register-all"]
Inductive pyobj : Type :=
  | Class (name : string)
  | GenericAlias (origin : generic) (args : list pyobj) (starred : bool)
  | Union (members : list pyobj)
  | NoneValue
  | ListValue (items : list pyobj).

(** [g[args]]. *)
Definition subscript (g : generic) (args : list pyobj) : pyobj :=
  GenericAlias g args false.

(** [list(o)]: a list of the items of [o].  Classes, unions and [None]
    are not iterable.  A generic alias is iterable on the interpreters
    that allow unpacking it, where it yields its starred form, and is
    not on the earlier ones: [alias_iterable] says which. *)
Definition call_list (alias_iterable : bool) (o : pyobj) : result pyobj :=
  match o with
  | ListValue items => Ok (ListValue items)
  | GenericAlias g args _ =>
      if alias_iterable then Ok (ListValue [GenericAlias g args true])
      else Raise TypeError
  | Class _ | Union _ | NoneValue => Raise TypeError
  end.

Definition type_like (o : pyobj) : bool :=
  match o with
  | Class _ | GenericAlias _ _ _ | Union _ => true
  | NoneValue | ListValue _ => false
  end.

Definition is_none (o : pyobj) : bool :=
  match o with
  | NoneValue => true
  | _ => false
  end.

(** [a | b]: a union when one operand is a type and the other a type
    or [None]; a list object supports no [|]. *)
Definition bitor (a b : pyobj) : result pyobj :=
  if (type_like a || is_none a) && (type_like b || is_none b)
     && (type_like a || type_like b)
  then Ok (Union [a; b])
  else Raise TypeError.

(** [list(dict[str, Any]) | None], the annotation of [common] in lines
    20 and 50. *)
Definition common_annotation (alias_iterable : bool) : result pyobj :=
  l ← call_list alias_iterable (subscript py_dict [Class "str"; Class "typing.Any"]);
  bitor l NoneValue.

(** Lines 18-21: the annotations of [lm], [question], [choices] and
    [common]. *)
Definition def_zero_shot_multiple_choice (alias_iterable : bool)
  : result (list pyobj) :=
  let lm_annotation := Class "guidance.models.Chat" in
  let question_annotation := Class "str" in
  let choices_annotation := subscript py_list [Class "str"] in
  common ← common_annotation alias_iterable;
  Ok [lm_annotation; question_annotation; choices_annotation; common].

(** Lines 49-51: the annotations of [lm], [input] and [common], then
    the one of the result. *)
Definition def_guidance_generation (alias_iterable : bool)
  : result (list pyobj) :=
  let lm_annotation := Class "guidance.models.Chat" in
  let input_annotation := subscript typing_Dict [Class "str"; Class "typing.Any"] in
  common ← common_annotation alias_iterable;
  let return_annotation := subscript typing_Dict [Class "str"; Class "typing.Any"] in
  Ok [lm_annotation; input_annotation; common; return_annotation].

(** What the module binds once it has run. *)
Record Program : Type := mkProgram {
  program_zero_shot_multiple_choice :
    Chat -> string -> list string -> option (list Example) -> result Chat;
  program_guidance_generation :
    Chat -> Question -> option (list Example) -> result (gmap string Z)
}.

(** Running the module: the two [def] statements, in order. *)
Definition exec_module (alias_iterable : bool) : result Program :=
  _ ← def_zero_shot_multiple_choice alias_iterable;
  _ ← def_guidance_generation alias_iterable;
  Ok (mkProgram zero_shot_multiple_choice guidance_generation).

(** A call of [guidance_generation] by a user of the file: the module
    is run, then the function it bound is called. *)
Definition call_guidance_generation (alias_iterable : bool)
    (lm : Chat) (input : Question) (common : option (list Example))
  : result (gmap string Z) :=
  program ← exec_module alias_iterable;
  program_guidance_generation program lm input common.

End Loading.

(** ** [src/azureml/pipelines/submit_mmlu_fewshot.py] *)

Module Submit.
Import Py.

(** Modelled from the spec: the module [configs] ([AMLConfig],
    [FewShotConfig] and the records nested in it) is not part of the
    sources.  The records below have the fields the assembler reads:
    source dataset identifier, evaluation-split and few-shot-split
    selectors, worker count, error budget, model deployment with its
    compute target, and the pipeline naming and tagging parameters. *)
Record AMLConfig : Type := mkAMLConfig {
  subscription_id : string;
  resource_group : string;
  workspace_name : string
}.

Record AOAIConfig : Type := mkAOAIConfig {
  endpoint : string;
  model : string;
  compute_target : string
}.

(** [run_config.pipeline]; [pipeline_tags] is its attribute [tags],
    [None] when it is unset. *)
Record PipelineSettings : Type := mkPipelineSettings {
  base_experiment_name : string;
  default_compute_target : string;
  pipeline_tags : option (gmap string string)
}.

Record FewShotConfig : Type := mkFewShotConfig {
  guidance_program : string;
  mmlu_dataset : string;
  mmlu_split : string;
  fewshot_split : string;
  guidance_workers : Z;
  max_errors : Z;
  aoai_config : AOAIConfig;
  pipeline : PipelineSettings;
  tags : gmap string string
}.

(** The composed configuration object handed to [main]: a mapping
    from the names of the top-level nodes to their content.
    [PipelineConfig] declares two of them. *)
Inductive config_node : Type :=
  | FewShotNode (c : FewShotConfig)
  | AMLNode (c : AMLConfig).

Definition PipelineConfig_fields : list string :=
  ["fewshot_config"; "azureml_config"].

(** Attribute access [config.field]: an absent node raises. *)
Definition get_fewshot (config : gmap string config_node) (field : string)
  : result FewShotConfig :=
  match config !! field with
  | Some (FewShotNode c) => Ok c
  | _ => Raise (ConfigAttributeError field)
  end.

Definition get_aml (config : gmap string config_node) (field : string)
  : result AMLConfig :=
  match config !! field with
  | Some (AMLNode c) => Ok c
  | _ => Raise (ConfigAttributeError field)
  end.

(** [azure.ai.ml.MLClient] as far as the program uses it: the handle
    on the workspace. *)
Record MLClient : Type := mkMLClient {
  client_subscription_id : string;
  client_resource_group_name : string;
  client_workspace_name : string
}.

(** [azure.ai.ml.Input(type=..., path=..., model=...)] with the
    keywords of lines 42-46. *)
Record Input : Type := mkInput {
  input_type : string;
  input_path : string;
  input_model : string
}.

(** What a job is given for one of its keyword arguments: a literal,
    the named output of an earlier job of the graph, or an external
    resource. *)
Inductive arg : Type :=
  | ArgStr (s : string)
  | ArgInt (z : Z)
  | ArgOutput (job : nat) (port : string)
  | ArgInput (i : Input).

(** A node of the graph: the component it instantiates, the version
    that component was collected under, its keyword arguments in the
    order written, and the attributes set after its creation. *)
Record Job : Type := mkJob {
  job_component : string;
  job_version : string;
  job_inputs : list (string * arg);
  job_name : option string;
  job_compute : option string
}.

(** The body of a [@dsl.pipeline()] function runs against the list of
    the nodes created so far; a node is referred to by its position. *)
Definition Dsl (A : Type) : Type := list Job -> A * list Job.

Definition dsl_ret {A : Type} (a : A) : Dsl A := fun jobs => (a, jobs).

Definition dsl_bind {A B : Type} (c : Dsl A) (k : A -> Dsl B) : Dsl B :=
  fun jobs => let '(a, jobs') := c jobs in k a jobs'.

Notation "x <~ c ; k" := (dsl_bind c (fun x => k))
  (at level 20, c at level 100, k at level 200, only parsing).
Notation "c ;; k" := (dsl_bind c (fun _ => k))
  (at level 100, k at level 200, right associativity, only parsing).

(** Modelled from the spec: [azureml_utils.get_component_collector] is
    not part of the sources.  The collector hands out the components
    by name, registered under the run identity it was created with. *)
Record ComponentCollector : Type := mkCollector {
  collector_client : MLClient;
  collector_version : string
}.

Definition get_component_collector (ml_client : MLClient) (version_string : string)
  : ComponentCollector :=
  mkCollector ml_client version_string.

(** [components.name(...)] with its keyword arguments: a new node at the end of the
    graph. *)
Definition call (components : ComponentCollector) (name : string)
    (inputs : list (string * arg)) : Dsl nat :=
  fun jobs =>
    (List.length jobs,
     (jobs ++ [mkJob name (collector_version components) inputs None None])%list).

(** [job.name = n] and [job.compute = c]. *)
Definition set_name (job : nat) (n : string) : Dsl unit :=
  fun jobs =>
    (tt, alter (fun j => mkJob (job_component j) (job_version j) (job_inputs j)
                               (Some n) (job_compute j)) job jobs).

Definition set_compute (job : nat) (c : string) : Dsl unit :=
  fun jobs =>
    (tt, alter (fun j => mkJob (job_component j) (job_version j) (job_inputs j)
                               (job_name j) (Some c)) job jobs).

(** [job.outputs.output_dataset]. *)
Definition output_dataset (job : nat) : arg := ArgOutput job "output_dataset".

(** [azure.ai.ml.entities.Pipeline] as the program sets it up. *)
Record Pipeline : Type := mkPipeline {
  jobs : list Job;
  experiment_name : option string;
  display_name : option string;
  compute : option string;
  pipeline_job_tags : gmap string string
}.

(** [dir / name] on paths. *)
Definition path_join (dir name : string) : string := dir +:+ "/" +:+ name.

Section assembler.
(** [constants.GUIDANCE_PROGRAMS_DIR]: the module [constants] is not
  part of the sources, the directory is a parameter. *)
Variable GUIDANCE_PROGRAMS_DIR : string.

Section create_fewshot_pipeline.
Variable ml_client : MLClient.
Variable run_config : FewShotConfig.
Variable version_string : string.

Definition components : ComponentCollector :=
  get_component_collector ml_client version_string.

Definition fewshot_program_input : Input :=
  mkInput "uri_file"
          (path_join GUIDANCE_PROGRAMS_DIR (guidance_program run_config))
          "download".

(** Lines 49-89. *)
Definition basic_pipeline_body : Dsl unit :=
  mmlu_fetch_job <~ call components "jsonl_mmlu_fetch"
    [("mmlu_dataset", ArgStr (mmlu_dataset run_config))];
  set_name mmlu_fetch_job ("fetch_mmlu_" +:+ mmlu_dataset run_config);;

  get_split_job <~ call components "uri_folder_to_file"
    [("input_dataset", output_dataset mmlu_fetch_job);
     ("filename_pattern", ArgStr (mmlu_split run_config +:+ ".jsonl"))];
  set_name get_split_job ("extract_split_" +:+ mmlu_split run_config);;

  get_fewshot_split_job <~ call components "uri_folder_to_file"
    [("input_dataset", output_dataset mmlu_fetch_job);
     ("filename_pattern", ArgStr (fewshot_split run_config +:+ ".jsonl"))];
  set_name get_fewshot_split_job ("extract_split_" +:+ fewshot_split run_config);;

  convert_common_to_json_job <~ call components "jsonl_to_json"
    [("input_dataset", output_dataset get_fewshot_split_job)];
  set_name convert_common_to_json_job "convert_fewshot_to_json";;

  fewshot_guidance_job <~ call components "jsonl_guidance"
    [("guidance_program", ArgInput fewshot_program_input);
     ("guidance_workers", ArgInt (guidance_workers run_config));
     ("max_errors", ArgInt (max_errors run_config));
     ("input_dataset", output_dataset get_split_job);
     ("common_dataset", output_dataset convert_common_to_json_job);
     ("azure_openai_endpoint", ArgStr (endpoint (aoai_config run_config)));
     ("azure_openai_deployed_model", ArgStr (model (aoai_config run_config)))];
  set_name fewshot_guidance_job "fewshot_guidance";;
  set_compute fewshot_guidance_job (compute_target (aoai_config run_config));;

  score_job <~ call components "jsonl_score_multiplechoice"
    [("input_dataset", output_dataset fewshot_guidance_job);
     ("correct_key", ArgStr "correct_answer");
     ("response_key", ArgStr "zero_or_few_shot_choice")];
  set_name score_job "fewshot_score".

(** [basic_pipeline()]: the decorator runs the body on an empty
    graph and wraps the nodes in a pipeline without tags. *)
Definition basic_pipeline : Pipeline :=
  mkPipeline (snd (basic_pipeline_body [])) None None None ∅.

(** Truth value of [run_config.pipeline.tags]. *)
Definition tags_truthy (t : option (gmap string string)) : bool :=
  match t with
  | None => false
  | Some m => negb (bool_decide (m = ∅))
  end.

(** [d.update(u)]: the entries of [u] win. *)
Definition update (d u : gmap string string) : gmap string string := u ∪ d.

Definition create_fewshot_pipeline : Pipeline :=
  let pipeline' := basic_pipeline in
  let pipeline' :=
    mkPipeline (jobs pipeline')
      (Some (base_experiment_name (pipeline run_config) +:+ "_" +:+
             mmlu_dataset run_config))
      None
      (Some (default_compute_target (pipeline run_config)))
      (pipeline_job_tags pipeline') in
  if tags_truthy (pipeline_tags (pipeline run_config)) then
    mkPipeline (jobs pipeline') (experiment_name pipeline')
      (display_name pipeline') (compute pipeline')
      (update (pipeline_job_tags pipeline') (tags run_config))
  else pipeline'.
End create_fewshot_pipeline.

(** Line 106: [str(int(time.time()))], the clock reading being the
  number of seconds since the epoch. *)
Definition version_string_of (now : Q) : string := str (int_of_float now).

Section main.
(** The workspace collaborator: [ws_client.jobs.create_or_update],
    returning the name of the submitted job. *)
Variable create_or_update : MLClient -> Pipeline -> result string.
(** [time.time()] at the start of the submission. *)
Variable now : Q.

Definition main (config : gmap string config_node) : result string :=
  let version_string := version_string_of now in
  azureml_config ← get_aml config "azureml_config";
  let ws_client :=
    mkMLClient (subscription_id azureml_config)
               (resource_group azureml_config)
               (workspace_name azureml_config) in
  run_config ← get_fewshot config "zeroshot_config";
  let pipeline := create_fewshot_pipeline ws_client run_config version_string in
  create_or_update ws_client pipeline.
End main.
End assembler.

(** *** Reading the assembled graph *)

(** The jobs whose output a job consumes. *)
Definition upstream (j : Job) : list nat :=
  omap (fun '(_, a) => match a with ArgOutput src _ => Some src | _ => None end)
       (job_inputs j).

(** The dependency edges [(producer, consumer)], consumers in the
    order of creation. *)
Definition edges (g : list Job) : list (nat * nat) :=
  concat (imap (fun dst j => map (fun src => (src, dst)) (upstream j)) g).

(** [reaches g a b]: there is a non-empty path of edges from [a] to [b]. *)
Inductive reaches (g : list Job) : nat -> nat -> Prop :=
  | reaches_edge a b : In (a, b) (edges g) -> reaches g a b
  | reaches_step a b c : In (a, b) (edges g) -> reaches g b c -> reaches g a c.

Definition acyclic (g : list Job) : Prop := forall n, ~ reaches g n n.

(** The literal a job was given for a keyword. *)
Definition keyword (j : Job) (k : string) : option arg :=
  snd <$> find (fun '(k', _) => bool_decide (k' = k)) (job_inputs j).

Definition job_of_component (g : list Job) (c : string) : option Job :=
  find (fun j => bool_decide (job_component j = c)) g.

(** The field the scorer is told to read the generated choice from. *)
Definition response_key (p : Pipeline) : option arg :=
  j ← job_of_component (jobs p) "jsonl_score_multiplechoice";
  keyword j "response_key".

End Submit.

(** ** The generation stage *)

Module Stage.
Import Guidance.

(** What the stage writes for one input record: the fields returned
    by the guidance program, or the failure marker. *)
Inductive generation : Type :=
  | Generated (fields : gmap string Z)
  | FailureMarker.

(** Modelled from the spec: the component [jsonl_guidance] that runs
    the guidance program over the records is not part of the sources.
    Following the specification, the stage keeps a running count of
    the failed generations; while the count is less than [max_errors]
    a failed record gets the failure marker and processing continues;
    when the count reaches [max_errors] the stage fails with
    [ErrorBudgetExceeded] and nothing is emitted.  The output is
    parallel to the input.  The records are taken in input order: the
    count only grows, so whether it reaches the budget does not
    depend on the order in which the workers complete. *)
Fixpoint run_stage (generate : Question -> result (gmap string Z))
    (max_errors failures : Z) (inputs : list Question)
  : result (list (Question * generation)) :=
  if (max_errors <=? failures)%Z then Raise ErrorBudgetExceeded
  else
    match inputs with
    | [] => Ok []
    | input :: rest =>
        match generate input with
        | Ok fields =>
            cons (input, Generated fields) <$>
              run_stage generate max_errors failures rest
        | Raise _ =>
            cons (input, FailureMarker) <$>
              run_stage generate max_errors (failures + 1) rest
        end
    end.

Definition jsonl_guidance (lm : Chat) (max_errors : Z)
    (inputs : list Question) (common : option (list Example))
  : result (list (Question * generation)) :=
  run_stage (fun input => guidance_generation lm input common) max_errors 0 inputs.

(** The record the stage writes for one input when it completes. *)
Definition mark (generate : Question -> result (gmap string Z)) (input : Question)
  : Question * generation :=
  match generate input with
  | Ok fields => (input, Generated fields)
  | Raise _ => (input, FailureMarker)
  end.

Definition failed (generate : Question -> result (gmap string Z)) (input : Question)
  : bool :=
  match generate input with
  | Ok _ => false
  | Raise _ => true
  end.

(** The number of failed generations over the whole input. *)
Definition failure_count (generate : Question -> result (gmap string Z))
    (inputs : list Question) : Z :=
  Z.of_nat (List.length (List.filter (failed generate) inputs)).

End Stage.


(** ** Concrete inputs *)

Module Sample.
Import Guidance Submit.

(** A model that answers with the first allowed token. *)
Definition lm_first : Chat := mkChat (fun _ allowed => head allowed) [] ∅.

Definition two_choices : Question := mkQuestion "Q?" ["a"; "b"].

Definition no_choices : Question := mkQuestion "Q?" [].

Definition run_config : FewShotConfig :=
  mkFewShotConfig "zero_shot.py" "all" "test" "dev" 4 5
    (mkAOAIConfig "https://endpoint" "gpt" "cpu-cluster")
    (mkPipelineSettings "mmlu" "cpu-cluster" None)
    {[ "owner" := "team" ]}.

Definition tagged_run_config : FewShotConfig :=
  mkFewShotConfig "zero_shot.py" "all" "test" "dev" 4 5
    (mkAOAIConfig "https://endpoint" "gpt" "cpu-cluster")
    (mkPipelineSettings "mmlu" "cpu-cluster" (Some {[ "stage" := "eval" ]}))
    {[ "owner" := "team" ]}.

Definition azureml_config : AMLConfig := mkAMLConfig "sub" "rg" "ws".

Definition ws_client : MLClient := mkMLClient "sub" "rg" "ws".

End Sample.

(* ===================================================================== *)
(** * Part II: properties                                                 *)
(* ===================================================================== *)

Import Py Guidance Loading Submit Stage Sample.

(** ** [str] and [int] *)

Lemma isdigit_nonspace c : isdigit c = true -> isspace c = false.
Proof.
  unfold isdigit, isspace. generalize (nat_of_ascii c). intros n H.
  apply andb_true_iff in H as [H1 H2].
  apply Nat.leb_le in H1. apply Nat.leb_le in H2.
  apply orb_false_iff. split.
  - apply andb_false_iff. right. apply Nat.leb_gt. lia.
  - apply Nat.eqb_neq. lia.
Qed.

Lemma isdigit_not_sign c :
  isdigit c = true -> Ascii.eqb c "-" = false /\ Ascii.eqb c "+" = false.
Proof.
  intros H. split; apply Ascii.eqb_neq; intros ->; discriminate H.
Qed.

Lemma lstrip_nonspace s :
  string_forallb nonspace s = true -> lstrip s = s.
Proof.
  destruct s as [|c s]; simpl; [reflexivity|].
  unfold nonspace. intros H. apply andb_true_iff in H as [H _].
  apply negb_true_iff in H. now rewrite H.
Qed.

Lemma rstrip_nonspace s :
  string_forallb nonspace s = true -> rstrip s = s.
Proof.
  induction s as [|c s IH]; simpl; [reflexivity|].
  intros H. apply andb_true_iff in H as [Hc Hs].
  rewrite (IH Hs). unfold nonspace in Hc. apply negb_true_iff in Hc.
  rewrite Hc. now destruct s.
Qed.

Lemma strip_nonspace s :
  string_forallb nonspace s = true -> strip s = s.
Proof.
  intros H. unfold strip. rewrite (lstrip_nonspace s H). now apply rstrip_nonspace.
Qed.

Lemma digits_nonspace s :
  string_forallb isdigit s = true -> string_forallb nonspace s = true.
Proof.
  induction s as [|c s IH]; simpl; [reflexivity|].
  intros H. apply andb_true_iff in H as [Hc Hs].
  unfold nonspace at 1. rewrite (isdigit_nonspace c Hc). simpl. now apply IH.
Qed.

(** The numeral of a decimal number consists of digits. *)
Lemma string_of_uint_digits d :
  string_forallb isdigit (NilEmpty.string_of_uint d) = true.
Proof. induction d; simpl; auto. Qed.

(** A string of digits is a literal without underscores. *)
Lemma digit_groups_digits s :
  string_forallb isdigit s = true -> digit_groups true s = Some s.
Proof.
  induction s as [|c s IH]; simpl; [reflexivity|].
  intros H. apply andb_true_iff in H as [Hc Hs].
  rewrite Hc, (IH Hs). reflexivity.
Qed.

Lemma digit_groups_first c s :
  string_forallb isdigit (String c s) = true ->
  digit_groups false (String c s) = Some (String c s).
Proof.
  simpl. intros H. apply andb_true_iff in H as [Hc Hs].
  rewrite Hc, (digit_groups_digits s Hs). reflexivity.
Qed.

Lemma string_of_uint_cons d :
  d <> Decimal.Nil -> exists c s, NilEmpty.string_of_uint d = String c s.
Proof. destruct d; [congruence | simpl; eauto ..]. Qed.

(** Reading back the numeral of a positive number. *)
Lemma int_numeral p :
  int (NilEmpty.string_of_uint (Pos.to_uint p)) = Some (Zpos p).
Proof.
  pose proof (string_of_uint_digits (Pos.to_uint p)) as Hd.
  destruct (string_of_uint_cons _ (DecimalPos.Unsigned.to_uint_nonnil p))
    as (c & s & E).
  unfold int. rewrite (strip_nonspace _ (digits_nonspace _ Hd)).
  rewrite E in Hd |- *.
  assert (Hc : isdigit c = true) by (simpl in Hd; now apply andb_true_iff in Hd).
  destruct (isdigit_not_sign c Hc) as [-> ->].
  rewrite (digit_groups_first c s Hd), <- E, NilEmpty.usu.
  f_equal. exact (DecimalZ.of_to (Zpos p)).
Qed.

(** [int(str(z)) == z]. *)
Lemma int_str z : int (str z) = Some z.
Proof.
  destruct z as [|p|p].
  - reflexivity.
  - unfold str. simpl.
    unfold NilZero.string_of_uint.
    pose proof (DecimalPos.Unsigned.to_uint_nonnil p) as Hn.
    destruct (Pos.to_uint p) eqn:E; try congruence; rewrite <- E; apply int_numeral.
  - unfold str. simpl.
    pose proof (DecimalPos.Unsigned.to_uint_nonnil p) as Hn.
    pose proof (string_of_uint_digits (Pos.to_uint p)) as Hd.
    assert (Es : NilZero.string_of_uint (Pos.to_uint p)
                 = NilEmpty.string_of_uint (Pos.to_uint p))
      by (unfold NilZero.string_of_uint; destruct (Pos.to_uint p); congruence).
    rewrite Es.
    destruct (string_of_uint_cons _ Hn) as (c & s & E).
    unfold int.
    rewrite strip_nonspace
      by (simpl; unfold nonspace at 1; simpl; now apply digits_nonspace).
    simpl. rewrite E in Hd |- *.
    rewrite (digit_groups_first c s Hd), <- E, NilEmpty.usu.
    f_equal. exact (DecimalZ.of_to (Zneg p)).
Qed.

Lemma str_inj z1 z2 : str z1 = str z2 -> z1 = z2.
Proof.
  intros H. pose proof (int_str z1) as H1. rewrite H, int_str in H1. congruence.
Qed.

(** ** Strings *)

Lemma append_cons (x : ascii) (a b : string) :
  String x a +:+ b = String x (a +:+ b).
Proof. reflexivity. Qed.

Lemma append_assoc (a b c : string) : (a +:+ b) +:+ c = a +:+ (b +:+ c).
Proof.
  induction a as [|x a IH]; [reflexivity|].
  rewrite !append_cons. now f_equal.
Qed.

Lemma append_empty_r (a : string) : a +:+ "" = a.
Proof.
  induction a as [|x a IH]; [reflexivity|].
  rewrite append_cons. now f_equal.
Qed.

Lemma length_append (a b : string) :
  String.length (a +:+ b) = String.length a + String.length b.
Proof.
  induction a as [|x a IH]; [reflexivity|].
  rewrite append_cons. simpl. now f_equal.
Qed.

Lemma join_app (l1 l2 : list string) : join (l1 ++ l2) = join l1 +:+ join l2.
Proof.
  induction l1 as [|x l1 IH]; [reflexivity|].
  change (x +:+ join (l1 ++ l2) = (x +:+ join l1) +:+ join l2).
  now rewrite IH, append_assoc.
Qed.

(** ** The chat state *)

Lemma append_to_last_snoc s bs r t :
  append_to_last s (bs ++ [(r, t)]) = bs ++ [(r, t +:+ s)].
Proof.
  induction bs as [|b bs IH]; simpl; [reflexivity|].
  rewrite IH. destruct b as [r' t'].
  destruct (bs ++ [(r, t)]) eqn:E; [now destruct bs | reflexivity].
Qed.

Lemma append_to_last_twice a b bs :
  append_to_last b (append_to_last a bs) = append_to_last (a +:+ b) bs.
Proof.
  induction bs as [|[r t] bs IH]; simpl; [reflexivity|].
  destruct bs as [|b' bs]; simpl.
  - now rewrite append_assoc.
  - simpl in IH. rewrite <- IH.
    destruct b' as [r' t']. destruct bs; reflexivity.
Qed.

Lemma append_to_last_empty bs : append_to_last "" bs = bs.
Proof.
  induction bs as [|[r t] bs IH]; simpl; [reflexivity|].
  destruct bs as [|b' bs]; [now rewrite append_empty_r | now rewrite IH].
Qed.

Lemma iadd_iadd lm a b : lm +== a +== b = lm +== (a +:+ b).
Proof. unfold iadd; simpl. now rewrite append_to_last_twice. Qed.

Lemma iadd_empty lm : lm +== "" = lm.
Proof. unfold iadd. rewrite append_to_last_empty. now destruct lm. Qed.

(** A loop whose body appends [g x] writes the texts one after the other. *)
Lemma fold_left_iadd {A : Type} (f : Chat -> A -> Chat) (g : A -> string) :
  (forall lm x, f lm x = lm +== g x) ->
  forall l lm, fold_left f l lm = lm +== join (map g l).
Proof.
  intros Hf l. induction l as [|x l IH]; intros lm; simpl.
  - now rewrite iadd_empty.
  - now rewrite IH, Hf, iadd_iadd.
Qed.

Lemma render_choice_iadd lm ic :
  render_choice lm ic = lm +== (choice_line ic +:+ answer_cue).
Proof. destruct ic as [i c]. unfold render_choice. now rewrite iadd_iadd. Qed.

Lemma render_example_iadd lm ie :
  render_example lm ie = lm +== example_text ie.
Proof.
  destruct ie as [i e]. unfold render_example, example_text.
  rewrite (fold_left_iadd _ choice_line) by (intros ? [? ?]; reflexivity).
  now rewrite !iadd_iadd.
Qed.

Lemma enter_iadd r lm s :
  enter r lm +== s = mkChat (engine lm) (blocks lm ++ [(r, s)]) (captured lm).
Proof. unfold enter, iadd; simpl. now rewrite append_to_last_snoc. Qed.

Lemma enter_after r lm bs :
  enter r (mkChat (engine lm) bs (captured lm))
  = mkChat (engine lm) (bs ++ [(r, "")]) (captured lm).
Proof. reflexivity. Qed.

(** The program is one call of the primitive on [prompt]. *)
Lemma zero_shot_multiple_choice_prompt lm q cs common :
  zero_shot_multiple_choice lm q cs common
  = select (allowed_tokens cs) "string_choice"
      (mkChat (engine lm) (prompt lm q cs common) (captured lm)).
Proof.
  unfold zero_shot_multiple_choice, prompt.
  rewrite (fold_left_iadd render_choice _ render_choice_iadd).
  rewrite (fold_left_iadd render_example _ render_example_iadd).
  f_equal.
  assert (Hsys :
    (if truthy common
     then enter system lm +== preamble
          +== ("Here are some examples to help you:" +:+ nl +:+ nl)
          +== join (map example_text (enumerate (pool common)))
     else enter system lm +== preamble)
    = mkChat (engine lm) (blocks lm ++ [(system, system_text common)]) (captured lm)).
  { unfold system_text, examples_text. destruct (truthy common).
    - now rewrite !iadd_iadd, enter_iadd.
    - now rewrite enter_iadd, append_empty_r. }
  rewrite Hsys, iadd_iadd.
  rewrite (enter_iadd user (mkChat (engine lm) _ (captured lm))). simpl.
  unfold enter; simpl. unfold user_text.
  now rewrite <- !app_assoc.
Qed.

(** The result of [guidance_generation] in terms of the single model call. *)
Lemma guidance_generation_call lm input common :
  guidance_generation lm input common
  = match engine lm (prompt lm (question input) (choices input) common)
                    (allowed_tokens (choices input)) with
    | Some token => z ← to_int token; Ok {[ "zeroshot_choice" := z ]}
    | None => Raise GenerationError
    end.
Proof.
  unfold guidance_generation. rewrite zero_shot_multiple_choice_prompt.
  unfold select; simpl.
  destruct (engine lm _ _) as [token|]; [|reflexivity].
  simpl. unfold getitem; simpl. rewrite lookup_insert_eq. reflexivity.
Qed.

(** ** The allowed tokens *)

Lemma allowed_tokens_In cs token :
  In token (allowed_tokens cs) <->
  exists i, (i < List.length cs)%nat /\ token = str (Z.of_nat i).
Proof.
  unfold allowed_tokens, range. rewrite map_map, in_map_iff. split.
  - intros (i & <- & Hi). apply in_seq in Hi. exists i. split; [lia | reflexivity].
  - intros (i & Hi & ->). exists i. split; [reflexivity | apply in_seq; lia].
Qed.

Lemma allowed_tokens_nil cs : allowed_tokens cs = [] <-> cs = [].
Proof.
  unfold allowed_tokens, range. split.
  - intros H. apply (f_equal (@List.length string)) in H.
    rewrite !length_map, length_seq in H. now destruct cs.
  - now intros ->.
Qed.

(** An allowed token reads back as an index of the choice list. *)
Lemma to_int_allowed cs token :
  In token (allowed_tokens cs) ->
  exists z, to_int token = Ok z /\
            (0 <= z <= Z.of_nat (List.length cs) - 1)%Z /\ token = str z.
Proof.
  intros H. apply allowed_tokens_In in H as (i & Hi & ->).
  exists (Z.of_nat i). unfold to_int. rewrite int_str.
  repeat split; lia.
Qed.

(** With a model that honours the constraint, a call either fails in
    the model or returns an index of the choice list. *)
Lemma generation_outcome lm input common :
  constrained lm ->
  match engine lm (prompt lm (question input) (choices input) common)
                  (allowed_tokens (choices input)) with
  | Some token =>
      exists z, guidance_generation lm input common = Ok {[ "zeroshot_choice" := z ]}
                /\ (0 <= z <= Z.of_nat (List.length (choices input)) - 1)%Z
                /\ token = str z
  | None => guidance_generation lm input common = Raise GenerationError
  end.
Proof.
  intros Hlm. rewrite guidance_generation_call.
  destruct (engine lm _ _) as [token|] eqn:E; [|reflexivity].
  apply Hlm in E. destruct (to_int_allowed _ _ E) as (z & Hz & Hr & Ht).
  exists z. rewrite Hz. auto.
Qed.

Lemma lm_first_constrained : constrained lm_first.
Proof.
  intros p allowed token. simpl. destruct allowed; simpl; [discriminate|].
  intros [= ->]. now left.
Qed.

(** ** Claims about the guidance program *)



(** The bodies of the two functions handle the empty pool: with [None]
    or the empty list and a non-empty choice list, the system turn is
    the preamble alone, the prompt has its three turns, the set of
    allowed tokens is not empty, and the body returns an index of the
    choice list unless the model call itself fails. *)
Theorem empty_pool_generation lm input common :
  constrained lm ->
  choices input <> [] ->
  common = None \/ common = Some [] ->
  prompt lm (question input) (choices input) common
    = blocks lm ++ [(system, preamble);
                    (user, user_text (question input) (choices input));
                    (assistant, "")] /\
  allowed_tokens (choices input) <> [] /\
  zero_shot_multiple_choice lm (question input) (choices input) common
    = select (allowed_tokens (choices input)) "string_choice"
        (mkChat (engine lm)
           (blocks lm ++ [(system, preamble);
                          (user, user_text (question input) (choices input));
                          (assistant, "")])
           (captured lm)) /\
  match engine lm (blocks lm ++ [(system, preamble);
                                 (user, user_text (question input) (choices input));
                                 (assistant, "")])
                  (allowed_tokens (choices input)) with
  | Some token =>
      exists z, guidance_generation lm input common = Ok {[ "zeroshot_choice" := z ]}
                /\ (0 <= z <= Z.of_nat (List.length (choices input)) - 1)%Z
  | None => guidance_generation lm input common = Raise GenerationError
  end.
Proof.
  intros Hlm Hcs Hpool.
  assert (Hp : prompt lm (question input) (choices input) common
               = blocks lm ++ [(system, preamble);
                               (user, user_text (question input) (choices input));
                               (assistant, "")]).
  { unfold prompt, system_text, examples_text.
    destruct Hpool as [-> | ->]; simpl; now rewrite append_empty_r. }
  split; [exact Hp|]. split; [now rewrite allowed_tokens_nil|].
  split; [now rewrite zero_shot_multiple_choice_prompt, Hp|].
  pose proof (generation_outcome lm input common Hlm) as H.
  rewrite Hp in H. destruct (engine lm _ _); [|exact H].
  destruct H as (z & Hz & Hr & _). eauto.
Qed.

Lemma empty_pool_generation_witness :
  constrained lm_first /\ choices two_choices <> [] /\
  exists z, guidance_generation lm_first two_choices (Some []) = Ok {[ "zeroshot_choice" := z ]}
            /\ (0 <= z <= 1)%Z.
Proof.
  split; [exact lm_first_constrained|]. split; [discriminate|].
  exact (proj2 (proj2 (proj2
    (empty_pool_generation lm_first two_choices (Some [])
       lm_first_constrained ltac:(discriminate) (or_intror eq_refl))))).
Defined.

Lemma common_annotation_raises alias_iterable :
  common_annotation alias_iterable = Raise TypeError.
Proof. now destruct alias_iterable. Qed.

Lemma exec_module_raises alias_iterable :
  exec_module alias_iterable = Raise TypeError.
Proof.
  unfold exec_module, def_zero_shot_multiple_choice.
  now rewrite common_annotation_raises.
Qed.

(** C6.  The file as written does not get to the empty pool: the
    annotation [list(dict[str, Any]) | None] of [common] is evaluated
    when the [def] statement of line 18 runs and raises [TypeError]
    (calling [list] on the alias gives a list object or fails, and a
    list object has no [|]), so the module binds neither function.
    A zero-shot call on a two-choice question, with [None] as with the
    empty list, raises [TypeError]: no prompt and no answer is
    produced, although the function bodies would produce them. *)
Theorem empty_pool_call_raises_type_error :
  (forall alias_iterable, exec_module alias_iterable = Raise TypeError) /\
  (forall alias_iterable lm,
     call_guidance_generation alias_iterable lm two_choices None = Raise TypeError /\
     call_guidance_generation alias_iterable lm two_choices (Some []) = Raise TypeError) /\
  guidance_generation lm_first two_choices None = Ok {[ "zeroshot_choice" := 0%Z ]} /\
  guidance_generation lm_first two_choices (Some []) = Ok {[ "zeroshot_choice" := 0%Z ]}.
Proof.
  split; [exact exec_module_raises|]. split.
  - intros alias_iterable lm. unfold call_guidance_generation.
    now rewrite exec_module_raises.
  - split; rewrite guidance_generation_call; reflexivity.
Qed.

(** C9.  For a record whose choice list is empty the set of allowed
    tokens is empty, so a model that honours the constraint has no token
    to return and the call raises: it returns no integer at all. *)
Theorem empty_choices_no_answer lm input common :
  constrained lm ->
  choices input = [] ->
  allowed_tokens (choices input) = [] /\
  guidance_generation lm input common = Raise GenerationError.
Proof.
  intros Hlm Hcs. split; [now rewrite Hcs|].
  rewrite guidance_generation_call.
  destruct (engine lm _ _) as [token|] eqn:E; [|reflexivity].
  apply Hlm in E. rewrite Hcs in E. destruct E.
Qed.

Lemma empty_choices_no_answer_witness :
  allowed_tokens (choices no_choices) = [] /\
  guidance_generation lm_first no_choices None = Raise GenerationError.
Proof.
  exact (empty_choices_no_answer lm_first no_choices None
           lm_first_constrained eq_refl).
Defined.

(** ** The text of the user turn *)

Lemma length_enumerate {A : Type} (l : list A) :
  List.length (enumerate l) = List.length l.
Proof.
  unfold enumerate, range.
  rewrite length_combine, length_map, length_seq. lia.
Qed.

Lemma length_join_suffix {A : Type} (g : A -> string) (suffix : string) (l : list A) :
  String.length (join (map (fun x => g x +:+ suffix) l))
  = String.length (join (map g l)) + List.length l * String.length suffix.
Proof.
  induction l as [|x l IH]; [reflexivity|].
  change (String.length ((g x +:+ suffix) +:+ join (map (fun x => g x +:+ suffix) l))
          = String.length (g x +:+ join (map g l))
            + S (List.length l) * String.length suffix).
  rewrite !length_append, IH. lia.
Qed.

(** The user turn the program writes is the one of the specification
    exactly for the questions with a single choice. *)
Lemma user_text_meets_spec_iff q cs :
  user_text q cs = user_text_spec q cs <-> List.length cs = 1%nat.
Proof.
  unfold user_text, user_text_spec. split.
  - intros H. apply String.app_inj in H.
    apply (f_equal String.length) in H.
    rewrite length_join_suffix, length_append, length_enumerate in H.
    change (String.length answer_cue) with 16%nat in H. lia.
  - intros H. f_equal.
    rewrite <- length_enumerate in H.
    destruct (enumerate cs) as [|x [|y l]]; try discriminate H.
    simpl. now rewrite !append_empty_r.
Qed.

(** C4.  On a question with two choices the program writes the answer
    cue after each choice, so the user turn is not the question, the
    enumerated choices and then the cue once. *)
Theorem answer_cue_after_every_choice :
  blocks <$> zero_shot_multiple_choice lm_first "Q?" ["a"; "b"] None
  = Ok [(system, preamble);
        (user, "Q?" +:+ nl +:+
               "0 : a" +:+ nl +:+ "Correct Answer: " +:+
               "1 : b" +:+ nl +:+ "Correct Answer: ");
        (assistant, "0")] /\
  user_text "Q?" ["a"; "b"] <> user_text_spec "Q?" ["a"; "b"] /\
  user_text_spec "Q?" ["a"; "b"]
  = "Q?" +:+ nl +:+ "0 : a" +:+ nl +:+ "1 : b" +:+ nl +:+ "Correct Answer: ".
Proof.
  split; [vm_compute; reflexivity|]. split; [|vm_compute; reflexivity].
  intros H. apply user_text_meets_spec_iff in H. discriminate H.
Qed.

(** ** The field the scorer reads *)

Lemma response_key_of_pipeline dir ml rc v :
  response_key (create_fewshot_pipeline dir ml rc v)
  = Some (ArgStr "zero_or_few_shot_choice").
Proof.
  unfold create_fewshot_pipeline. destruct (tags_truthy _); reflexivity.
Qed.

(** No record returned by the guidance program has the field the
    scorer is configured to read. *)
Lemma generated_record_lacks_response_key lm input common r dir ml rc v k :
  guidance_generation lm input common = Ok r ->
  response_key (create_fewshot_pipeline dir ml rc v) = Some (ArgStr k) ->
  r !! k = None.
Proof.
  rewrite guidance_generation_call, response_key_of_pipeline.
  intros Hr [= <-].
  destruct (engine lm _ _) as [token|]; [|discriminate Hr].
  destruct (to_int token) as [z|e]; simpl in Hr; [|discriminate Hr].
  injection Hr as <-. now apply lookup_singleton_ne.
Qed.

(** C1.  The assembler tells the scorer to read the field
    [zero_or_few_shot_choice], the guidance program records its choice
    under [zeroshot_choice]: the record generated for a two-choice
    question has no field of the name the scorer reads. *)
Theorem response_key_mismatch :
  response_key (create_fewshot_pipeline "guidance_programs" ws_client
                  run_config "1700000000")
  = Some (ArgStr "zero_or_few_shot_choice") /\
  guidance_generation lm_first two_choices None
  = Ok {[ "zeroshot_choice" := 0%Z ]} /\
  ({[ "zeroshot_choice" := 0%Z ]} : gmap string Z) !! "zero_or_few_shot_choice" = None /\
  ({[ "zeroshot_choice" := 0%Z ]} : gmap string Z) !! "zeroshot_choice" = Some 0%Z.
Proof.
  split; [apply response_key_of_pipeline|].
  split; [rewrite guidance_generation_call; reflexivity|].
  split; [now apply lookup_singleton_ne | apply lookup_singleton_eq].
Qed.

(** ** The assembled graph *)

(** A graph all of whose edges go from an earlier to a later node has
    no cycle. *)
Lemma reaches_increasing g :
  (forall a b, In (a, b) (edges g) -> (a < b)%nat) ->
  forall a b, reaches g a b -> (a < b)%nat.
Proof.
  intros Hg a b H. induction H as [a b Hab | a b c Hab _ IH].
  - now apply Hg.
  - apply Hg in Hab. lia.
Qed.

Lemma topological_acyclic g :
  (forall a b, In (a, b) (edges g) -> (a < b)%nat) -> acyclic g.
Proof.
  intros Hg n Hn. apply (reaches_increasing g Hg) in Hn. lia.
Qed.

Lemma basic_pipeline_edges dir ml rc v :
  edges (jobs (basic_pipeline dir ml rc v))
  = [(0, 1); (0, 2); (2, 3); (1, 4); (3, 4); (4, 5)]%nat.
Proof. reflexivity. Qed.

(** C5.  The graph assembled for a run configuration has six nodes:
    fetch (0), the evaluation split (1), the few-shot split (2), the
    JSON converter (3), the generation stage (4) and the scorer (5).
    Its dependency edges are exactly: fetch to both splits, few-shot
    split to converter, evaluation split and converter to generation,
    generation to scorer; and it has no cycle. *)
Theorem basic_pipeline_graph dir ml rc v :
  let g := jobs (basic_pipeline dir ml rc v) in
  map job_component g
  = ["jsonl_mmlu_fetch"; "uri_folder_to_file"; "uri_folder_to_file";
     "jsonl_to_json"; "jsonl_guidance"; "jsonl_score_multiplechoice"] /\
  (j ← g !! 1%nat; keyword j "filename_pattern")
  = Some (ArgStr (mmlu_split rc +:+ ".jsonl")) /\
  (j ← g !! 2%nat; keyword j "filename_pattern")
  = Some (ArgStr (fewshot_split rc +:+ ".jsonl")) /\
  (j ← g !! 4%nat; keyword j "input_dataset") = Some (output_dataset 1) /\
  (j ← g !! 4%nat; keyword j "common_dataset") = Some (output_dataset 3) /\
  edges g = [(0, 1); (0, 2); (2, 3); (1, 4); (3, 4); (4, 5)]%nat /\
  acyclic g.
Proof.
  intros g. repeat (split; [reflexivity|]).
  apply topological_acyclic. intros a b.
  unfold g. rewrite basic_pipeline_edges. simpl.
  intros H. repeat (destruct H as [[= <- <-] | H]; [lia|]). destruct H.
Qed.

(** ** Tags *)

(** C10.  [create_fewshot_pipeline] leaves the tags of the pipeline as
    [basic_pipeline] made them when [run_config.pipeline.tags] is unset
    or empty, whatever [run_config.tags] holds; when
    [run_config.pipeline.tags] is not empty it updates them with
    [run_config.tags], whose entries then are all among the tags. *)
Theorem tags_only_when_pipeline_tags dir ml rc v :
  (pipeline_tags (pipeline rc) = None \/ pipeline_tags (pipeline rc) = Some ∅ ->
   pipeline_job_tags (create_fewshot_pipeline dir ml rc v)
   = pipeline_job_tags (basic_pipeline dir ml rc v)) /\
  (forall m, pipeline_tags (pipeline rc) = Some m -> m <> ∅ ->
   pipeline_job_tags (create_fewshot_pipeline dir ml rc v)
   = update (pipeline_job_tags (basic_pipeline dir ml rc v)) (tags rc) /\
   forall k x, tags rc !! k = Some x ->
               pipeline_job_tags (create_fewshot_pipeline dir ml rc v) !! k = Some x).
Proof.
  unfold create_fewshot_pipeline. split.
  - intros [-> | ->]; simpl; [reflexivity|].
    now rewrite bool_decide_eq_true_2.
  - intros m -> Hm. simpl. rewrite bool_decide_eq_false_2 by exact Hm. simpl.
    split; [reflexivity|].
    intros k x Hk. unfold update. now apply lookup_union_Some_l.
Qed.

Lemma tags_only_when_pipeline_tags_witness :
  pipeline_job_tags
    (create_fewshot_pipeline "guidance_programs" ws_client run_config "1700000000")
  = ∅ /\
  pipeline_job_tags
    (create_fewshot_pipeline "guidance_programs" ws_client tagged_run_config "1700000000")
    !! "owner" = Some "team".
Proof.
  split.
  - exact (proj1 (tags_only_when_pipeline_tags "guidance_programs" ws_client
                    run_config "1700000000") (or_introl eq_refl)).
  - refine (proj2 (proj2 (tags_only_when_pipeline_tags "guidance_programs" ws_client
                     tagged_run_config "1700000000") {[ "stage" := "eval" ]} eq_refl _)
                  "owner" "team" _).
    + intros H. apply (f_equal (lookup "stage")) in H.
      rewrite lookup_singleton_eq, lookup_empty in H. discriminate H.
    + apply lookup_singleton_eq.
Defined.

(** ** The run identity *)

(** C7 as stated: whenever the clocks of two submissions read
    differently, their version strings differ.  This fails for the
    readings 1700000000.25 and 1700000000.75, both in the same second. *)
Lemma version_string_collision :
  ~ (forall t1 t2 : Q,
       ~ t1 == t2 -> version_string_of t1 <> version_string_of t2).
Proof.
  intros H.
  apply (H (6800000001 # 4) (6800000003 # 4)).
  - unfold Qeq. simpl. lia.
  - vm_compute. reflexivity.
Qed.

Lemma int_of_float_one_second_apart (t1 t2 : Q) :
  (0 <= t1)%Q -> (t1 + 1 <= t2)%Q -> (int_of_float t1 < int_of_float t2)%Z.
Proof.
  destruct t1 as [n1 d1], t2 as [n2 d2].
  unfold Qle, Qplus, int_of_float. simpl. intros H0 H.
  rewrite Pos.mul_1_r, Z.mul_1_r in *.
  assert (Hn2 : (0 <= n2)%Z) by nia.
  rewrite !Z.quot_div_nonneg by lia.
  pose proof (Z.div_mod n1 (Zpos d1) ltac:(lia)) as E1.
  pose proof (Z.mod_pos_bound n1 (Zpos d1) ltac:(lia)) as B1.
  set (q := (n1 / Zpos d1)%Z) in *.
  assert (Hq : (q + 1 <= n2 / Zpos d2)%Z).
  { apply Z.div_le_lower_bound; [lia|].
    apply (Z.mul_le_mono_pos_l _ _ (Zpos d1)); [lia | nia]. }
  lia.
Qed.

(** C7 (amended).  Two submissions get the same version string exactly
    when their clock readings have the same whole number of seconds;
    in particular two submissions at least one second apart get
    different strings. *)
Theorem version_string_same_second (t1 t2 : Q) :
  (version_string_of t1 = version_string_of t2 <->
   int_of_float t1 = int_of_float t2) /\
  ((0 <= t1)%Q -> (t1 + 1 <= t2)%Q ->
   version_string_of t1 <> version_string_of t2).
Proof.
  unfold version_string_of. split.
  - split; [apply str_inj | now intros ->].
  - intros H0 H1 E. apply str_inj in E.
    pose proof (int_of_float_one_second_apart t1 t2 H0 H1). lia.
Qed.

Lemma version_string_same_second_witness :
  version_string_of (1700000000 # 1) <> version_string_of (6800000005 # 4).
Proof.
  refine (proj2 (version_string_same_second (1700000000 # 1) (6800000005 # 4)) _ _).
  - unfold Qle. simpl. lia.
  - unfold Qle. simpl. lia.
Defined.

(** ** Submission *)

Lemma main_without_zeroshot_node dir submit now config ac :
  config !! "azureml_config" = Some (AMLNode ac) ->
  config !! "zeroshot_config" = None ->
  main dir submit now config = Raise (ConfigAttributeError "zeroshot_config").
Proof.
  intros Ha Hz. unfold main, get_aml, get_fewshot. now rewrite Ha, Hz.
Qed.

(** Had the node been called [zeroshot_config], the pipeline would be
    built from it and handed to the workspace. *)
Lemma main_with_zeroshot_node dir submit now config ac fc :
  config !! "azureml_config" = Some (AMLNode ac) ->
  config !! "zeroshot_config" = Some (FewShotNode fc) ->
  main dir submit now config
  = submit (mkMLClient (subscription_id ac) (resource_group ac) (workspace_name ac))
      (create_fewshot_pipeline dir
         (mkMLClient (subscription_id ac) (resource_group ac) (workspace_name ac))
         fc (version_string_of now)).
Proof.
  intros Ha Hz. unfold main, get_aml, get_fewshot. now rewrite Ha, Hz.
Qed.

(** C2.  A configuration that provides the two nodes [PipelineConfig]
    declares is rejected by [main], whatever their content and whatever
    the workspace would answer: [main] reads the node
    [zeroshot_config], which is not there, and nothing is submitted. *)
Theorem main_rejects_declared_config dir submit now fc ac :
  let config : gmap string config_node :=
    {[ "fewshot_config" := FewShotNode fc; "azureml_config" := AMLNode ac ]} in
  dom config = list_to_set PipelineConfig_fields /\
  main dir submit now config = Raise (ConfigAttributeError "zeroshot_config").
Proof.
  intros config. split.
  - unfold config, PipelineConfig_fields.
    rewrite dom_insert_L, dom_singleton_L. simpl. set_solver.
  - apply (main_without_zeroshot_node _ _ _ _ ac); unfold config.
    + rewrite lookup_insert_ne by discriminate. apply lookup_singleton_eq.
    + rewrite lookup_insert_ne by discriminate. now apply lookup_singleton_ne.
Qed.

(** ** The error budget *)

Lemma failure_count_nonneg generate inputs :
  (0 <= failure_count generate inputs)%Z.
Proof. unfold failure_count. lia. Qed.

Lemma failure_count_cons generate input rest :
  failure_count generate (input :: rest)
  = ((if failed generate input then 1 else 0) + failure_count generate rest)%Z.
Proof.
  unfold failure_count. simpl. destruct (failed generate input); simpl; lia.
Qed.

(** The stage against the total number of failures: it fails when
    that number, added to the failures counted before, reaches the
    budget, and otherwise writes one record per input, in order. *)
Lemma run_stage_outcome generate max_errors inputs :
  forall failures,
    run_stage generate max_errors failures inputs
    = if (max_errors <=? failures + failure_count generate inputs)%Z
      then Raise ErrorBudgetExceeded
      else Ok (map (mark generate) inputs).
Proof.
  induction inputs as [|input rest IH]; intros failures; simpl.
  - change (failure_count generate []) with 0%Z. now rewrite Z.add_0_r.
  - rewrite failure_count_cons.
    pose proof (failure_count_nonneg generate rest) as Hn.
    unfold failed, mark.
    destruct (Z.leb_spec max_errors failures) as [Hle | Hgt].
    + destruct (generate input);
        now rewrite (proj2 (Z.leb_le _ _)) by lia.
    + destruct (generate input) as [fields | e]; rewrite IH.
      * replace (failures + (0 + failure_count generate rest))%Z
          with (failures + failure_count generate rest)%Z by lia.
        now destruct (_ <=? _)%Z.
      * replace (failures + (1 + failure_count generate rest))%Z
          with (failures + 1 + failure_count generate rest)%Z by lia.
        now destruct (_ <=? _)%Z.
Qed.

(** C8.  The assembler passes [run_config.max_errors] to the generation
    stage as its [max_errors].  In the stage, when the number of failed
    generations reaches [max_errors] the run ends with
    [ErrorBudgetExceeded] and no output; when it stays below, the run
    completes with one record per input, in input order, the failed
    ones carrying the failure marker. *)
Theorem error_budget dir ml rc v lm inputs common :
  let generate := fun input => guidance_generation lm input common in
  (j ← job_of_component (jobs (basic_pipeline dir ml rc v)) "jsonl_guidance";
   keyword j "max_errors") = Some (ArgInt (max_errors rc)) /\
  ((max_errors rc <= failure_count generate inputs)%Z ->
   jsonl_guidance lm (max_errors rc) inputs common = Raise ErrorBudgetExceeded) /\
  ((failure_count generate inputs < max_errors rc)%Z ->
   jsonl_guidance lm (max_errors rc) inputs common = Ok (map (mark generate) inputs)
   /\ List.length (map (mark generate) inputs) = List.length inputs
   /\ forall i input, inputs !! i = Some input ->
        map (mark generate) inputs !! i
        = Some (input, match generate input with
                       | Ok fields => Generated fields
                       | Raise _ => FailureMarker
                       end)).
Proof.
  intros generate. split; [reflexivity|].
  unfold jsonl_guidance. fold generate. rewrite run_stage_outcome, Z.add_0_l.
  split.
  - intros H. now rewrite (proj2 (Z.leb_le _ _)) by exact H.
  - intros H. rewrite (proj2 (Z.leb_gt _ _)) by exact H.
    split; [reflexivity|]. split; [apply length_map|].
    intros i input Hi. rewrite list_lookup_fmap, Hi. simpl.
    unfold mark. now destruct (generate input).
Qed.

Lemma error_budget_witness :
  jsonl_guidance lm_first 1 [two_choices; no_choices] None = Raise ErrorBudgetExceeded /\
  jsonl_guidance lm_first 2 [two_choices; no_choices] None
  = Ok [(two_choices, Generated {[ "zeroshot_choice" := 0%Z ]});
        (no_choices, FailureMarker)].
Proof.
  split.
  - refine (proj1 (proj2 (error_budget "guidance_programs" ws_client
        (mkFewShotConfig "zero_shot.py" "all" "test" "dev" 4 1
           (aoai_config run_config) (pipeline run_config) ∅)
        "1700000000" lm_first [two_choices; no_choices] None)) _).
    vm_compute. discriminate.
  - refine (proj1 (proj2 (proj2 (error_budget "guidance_programs" ws_client
        (mkFewShotConfig "zero_shot.py" "all" "test" "dev" 4 2
           (aoai_config run_config) (pipeline run_config) ∅)
        "1700000000" lm_first [two_choices; no_choices] None)) _)).
    vm_compute. reflexivity.
Defined.

(* ===================================================================== *)
(** * Part III: further properties of the two programs                   *)
(* ===================================================================== *)

(** ** Numbering of the loops *)

Lemma enumerate_from_0 {A : Type} (l : list A) : enumerate l = enumerate_from 0 l.
Proof. reflexivity. Qed.

Lemma enumerate_from_cons {A : Type} (start : nat) (x : A) (l : list A) :
  enumerate_from start (x :: l) = (Z.of_nat start, x) :: enumerate_from (S start) l.
Proof. reflexivity. Qed.

Lemma enumerate_from_app {A : Type} (l1 l2 : list A) :
  forall start,
    enumerate_from start (l1 ++ l2)
    = enumerate_from start l1 ++ enumerate_from (start + List.length l1) l2.
Proof.
  induction l1 as [|x l1 IH]; intros start.
  - simpl. now rewrite Nat.add_0_r.
  - change ((x :: l1) ++ l2) with (x :: (l1 ++ l2)).
    rewrite !enumerate_from_cons, IH. simpl.
    now rewrite Nat.add_succ_r.
Qed.

(** ** The guidance program: order of the loops, tokens *)

(** X2.  The loop over the exemplar pool writes the exemplar at
    position n as the block numbered n, after the blocks of the
    exemplars before it and before those of the exemplars after it. *)
Theorem exemplars_in_pool_order lm (l1 l2 : list Example) (e : Example) :
  fold_left render_example (enumerate (l1 ++ e :: l2)) lm
  = fold_left render_example (enumerate_from (S (List.length l1)) l2)
      (fold_left render_example (enumerate l1) lm
       +== example_text (Z.of_nat (List.length l1), e)).
Proof.
  rewrite !enumerate_from_0, enumerate_from_app, fold_left_app.
  rewrite Nat.add_0_l, enumerate_from_cons. cbn [fold_left].
  now rewrite render_example_iadd.
Qed.

(** X3.  The loop over the choices of the question writes the choice at
    position n as the line numbered n, followed by the answer cue,
    after the lines of the choices before it and before those of the
    choices after it. *)
Theorem choices_in_list_order lm (cs1 cs2 : list string) (c : string) :
  fold_left render_choice (enumerate (cs1 ++ c :: cs2)) lm
  = fold_left render_choice (enumerate_from (S (List.length cs1)) cs2)
      (fold_left render_choice (enumerate cs1) lm
       +== ((str (Z.of_nat (List.length cs1)) +:+ " : " +:+ c +:+ nl)
            +:+ "Correct Answer: ")).
Proof.
  rewrite !enumerate_from_0, enumerate_from_app, fold_left_app.
  rewrite Nat.add_0_l, enumerate_from_cons. cbn [fold_left].
  now rewrite render_choice_iadd.
Qed.

Lemma str_injective : Inj (=) (=) str.
Proof. intros z1 z2. apply str_inj. Qed.

(** X4.  The allowed tokens of a question with K choices are K pairwise
    different strings; the token at position i is the numeral of i, and
    the conversion of line 57 reads it back as i. *)
Theorem allowed_tokens_decode (cs : list string) :
  List.length (allowed_tokens cs) = List.length cs /\
  NoDup (allowed_tokens cs) /\
  forall (i : nat) (token : string),
    allowed_tokens cs !! i = Some token ->
    token = str (Z.of_nat i) /\ to_int token = Ok (Z.of_nat i).
Proof.
  unfold allowed_tokens, range. split; [|split].
  - now rewrite !length_map, length_seq.
  - pose proof str_injective as Hstr.
    apply (NoDup_fmap_2 str), (NoDup_fmap_2 Z.of_nat), NoDup_seq.
  - intros i token H.
    assert (E : token = str (Z.of_nat i)).
    { rewrite !list_lookup_fmap in H.
      destruct (seq 0 (List.length cs) !! i) as [j|] eqn:Ej; [|discriminate H].
      apply lookup_seq in Ej as [-> _]. simpl in H. congruence. }
    split; [exact E|]. subst token. unfold to_int. now rewrite int_str.
Qed.

(** ** The assembled graph: connections *)

Lemma reaches_trans g a b c : reaches g a b -> reaches g b c -> reaches g a c.
Proof.
  intros Hab Hbc. induction Hab as [a b Hab | a b b' Hab _ IH].
  - now apply (reaches_step g a b c).
  - apply (reaches_step g a b c); [exact Hab | now apply IH].
Qed.

(** X7.  In the assembled graph every reference to a job output points
    to a job created earlier, none points outside the graph; every job
    other than the fetch depends on the fetch through a chain of such
    references, and the scorer depends in that way on every other job:
    no stage is left unconnected. *)
Theorem basic_pipeline_connected dir ml rc v :
  let g := jobs (basic_pipeline dir ml rc v) in
  (forall a b, In (a, b) (edges g) -> (a < b < List.length g)%nat) /\
  (forall n, (1 <= n <= 5)%nat -> reaches g 0 n) /\
  (forall n, (n <= 4)%nat -> reaches g n 5).
Proof.
  intros g.
  assert (E : forall a b,
             In (a, b) [(0, 1); (0, 2); (2, 3); (1, 4); (3, 4); (4, 5)]%nat ->
             reaches g a b).
  { intros a b H. apply reaches_edge. unfold g.
    now rewrite basic_pipeline_edges. }
  assert (E01 := E 0%nat 1%nat ltac:(simpl; tauto)).
  assert (E02 := E 0%nat 2%nat ltac:(simpl; tauto)).
  assert (E23 := E 2%nat 3%nat ltac:(simpl; tauto)).
  assert (E14 := E 1%nat 4%nat ltac:(simpl; tauto)).
  assert (E34 := E 3%nat 4%nat ltac:(simpl; tauto)).
  assert (E45 := E 4%nat 5%nat ltac:(simpl; tauto)).
  assert (E03 := reaches_trans g _ _ _ E02 E23).
  assert (E04 := reaches_trans g _ _ _ E01 E14).
  split; [|split].
  - intros a b. unfold g. rewrite basic_pipeline_edges. simpl.
    intros H. repeat (destruct H as [[= <- <-] | H]; [lia|]). destruct H.
  - intros n Hn.
    destruct n as [|[|[|[|[|[|n]]]]]]; try lia; try assumption.
    exact (reaches_trans g _ _ _ E04 E45).
  - intros n Hn.
    destruct n as [|[|[|[|[|n]]]]]; try lia; try assumption.
    + exact (reaches_trans g _ _ _ E04 E45).
    + exact (reaches_trans g _ _ _ E14 E45).
    + exact (reaches_trans g _ _ _ (reaches_trans g _ _ _ E23 E34) E45).
    + exact (reaches_trans g _ _ _ E34 E45).
Qed.

(** ** Tags: what reaches the pipeline *)

(** X8.  When [run_config.pipeline.tags] is not empty, the tags of the
    pipeline are exactly [run_config.tags]: the entries of
    [run_config.pipeline.tags] themselves are not copied, a key that
    occurs only there is not a tag of the pipeline. *)
Theorem pipeline_tags_content_ignored dir ml rc v (m : gmap string string) :
  pipeline_tags (pipeline rc) = Some m ->
  m <> ∅ ->
  pipeline_job_tags (create_fewshot_pipeline dir ml rc v) = tags rc /\
  forall k, tags rc !! k = None ->
            pipeline_job_tags (create_fewshot_pipeline dir ml rc v) !! k = None.
Proof.
  intros Hm Hne.
  assert (E : pipeline_job_tags (create_fewshot_pipeline dir ml rc v) = tags rc).
  { unfold create_fewshot_pipeline. rewrite Hm. simpl.
    rewrite bool_decide_eq_false_2 by exact Hne. simpl.
    unfold update. apply (right_id_L ∅ (∪)). }
  split; [exact E|]. intros k Hk. now rewrite E.
Qed.

Lemma pipeline_tags_content_ignored_witness :
  pipeline_tags (pipeline tagged_run_config) = Some {[ "stage" := "eval" ]} /\
  pipeline_job_tags
    (create_fewshot_pipeline "guidance_programs" ws_client tagged_run_config "1700000000")
    !! "stage" = None.
Proof.
  split; [reflexivity|].
  refine (proj2 (pipeline_tags_content_ignored "guidance_programs" ws_client
                   tagged_run_config "1700000000" {[ "stage" := "eval" ]} eq_refl _)
                "stage" _).
  - intros H. apply (f_equal (lookup "stage")) in H.
    rewrite lookup_singleton_eq, lookup_empty in H. discriminate H.
  - now apply lookup_singleton_ne.
Defined.

(** ** Submission: what [main] reads *)

(** X10.  [main] never looks at the node [fewshot_config]: giving it any
    content, or removing it, changes nothing in what [main] does. *)
Theorem main_ignores_fewshot_config dir submit now config node :
  main dir submit now (<["fewshot_config" := node]> config) = main dir submit now config /\
  main dir submit now (delete "fewshot_config" config) = main dir submit now config.
Proof.
  unfold main, get_aml, get_fewshot.
  now rewrite !lookup_insert_ne, !lookup_delete_ne by discriminate.
Qed.

(** ** The version string as a number *)

Lemma str_nonneg_digits z :
  (0 <= z)%Z -> string_forallb isdigit (str z) = true /\ str z <> "".
Proof.
  intros Hz. destruct z as [|p|p]; [split; [reflexivity | discriminate] | | lia].
  unfold str. simpl. unfold NilZero.string_of_uint.
  pose proof (DecimalPos.Unsigned.to_uint_nonnil p) as Hn.
  pose proof (string_of_uint_digits (Pos.to_uint p)) as Hd.
  destruct (string_of_uint_cons _ Hn) as (c & s & E).
  destruct (Pos.to_uint p) eqn:Ep; try congruence;
    (split; [exact Hd | rewrite E; discriminate]).
Qed.

Lemma int_of_float_nonneg (t : Q) : (0 <= t)%Q -> (0 <= int_of_float t)%Z.
Proof.
  destruct t as [n d]. unfold Qle, int_of_float. simpl. intros H.
  apply Z.quot_pos; lia.
Qed.

Lemma int_of_float_monotone (t1 t2 : Q) :
  (0 <= t1)%Q -> (t1 <= t2)%Q -> (int_of_float t1 <= int_of_float t2)%Z.
Proof.
  destruct t1 as [n1 d1], t2 as [n2 d2].
  unfold Qle, int_of_float. simpl. intros H0 H.
  rewrite Z.mul_1_r in H0.
  assert (Hn2 : (0 <= n2)%Z) by nia.
  rewrite !Z.quot_div_nonneg by lia.
  pose proof (Z.mul_div_le n1 (Zpos d1) ltac:(lia)) as B1.
  apply Z.div_le_lower_bound; [lia|].
  apply (Z.mul_le_mono_pos_l _ _ (Zpos d1)); [lia | nia].
Qed.

(** X12.  For a clock reading that is not negative the version string
    is a non-empty string of decimal digits, and it denotes the whole
    seconds of the reading: read as an integer it is the largest
    integer not above the reading. *)
Theorem version_string_numeral (now : Q) :
  (0 <= now)%Q ->
  version_string_of now <> "" /\
  string_forallb isdigit (version_string_of now) = true /\
  exists z, int (version_string_of now) = Some z /\
            (inject_Z z <= now)%Q /\ (now < inject_Z z + 1)%Q.
Proof.
  intros H0. pose proof (int_of_float_nonneg now H0) as Hz.
  destruct (str_nonneg_digits _ Hz) as [Hd Hne].
  unfold version_string_of. split; [exact Hne|]. split; [exact Hd|].
  exists (int_of_float now). split; [apply int_str|].
  destruct now as [n d]. unfold Qle, Qlt, Qplus, inject_Z, int_of_float in *.
  simpl in *. rewrite Z.mul_1_r in H0.
  rewrite Z.quot_div_nonneg by lia.
  pose proof (Z.div_mod n (Zpos d) ltac:(lia)) as E.
  pose proof (Z.mod_pos_bound n (Zpos d) ltac:(lia)) as B.
  split; nia.
Qed.

Lemma version_string_numeral_witness :
  version_string_of (6800000003 # 4) <> "" /\
  string_forallb isdigit (version_string_of (6800000003 # 4)) = true /\
  exists z, int (version_string_of (6800000003 # 4)) = Some z /\
            (inject_Z z <= 6800000003 # 4)%Q /\ (6800000003 # 4 < inject_Z z + 1)%Q.
Proof.
  apply version_string_numeral. unfold Qle. simpl. lia.
Defined.

(** X13.  The version strings follow the clock: of two readings that
    are not negative, the later one never gets the smaller version
    number. *)
Theorem version_string_monotone (t1 t2 : Q) :
  (0 <= t1)%Q -> (t1 <= t2)%Q ->
  exists z1 z2, int (version_string_of t1) = Some z1 /\
                int (version_string_of t2) = Some z2 /\ (z1 <= z2)%Z.
Proof.
  intros H0 H. exists (int_of_float t1), (int_of_float t2).
  unfold version_string_of. rewrite !int_str.
  repeat split. now apply int_of_float_monotone.
Qed.

Lemma version_string_monotone_witness :
  exists z1 z2, int (version_string_of (1700000000 # 1)) = Some z1 /\
                int (version_string_of (6800000005 # 4)) = Some z2 /\ (z1 <= z2)%Z.
Proof.
  apply version_string_monotone; unfold Qle; simpl; lia.
Defined.

(** ** The experiment a run is filed under *)

Lemma experiment_name_of_pipeline dir ml rc v :
  experiment_name (create_fewshot_pipeline dir ml rc v)
  = Some (base_experiment_name (pipeline rc) +:+ "_" +:+ mmlu_dataset rc).
Proof.
  unfold create_fewshot_pipeline. now destruct (tags_truthy _).
Qed.

(** X14.  Two runs with the same base experiment name are filed under
    the same experiment exactly when they are on the same dataset,
    whatever their other parameters, tags, client and version string
    are. *)
Theorem experiment_name_by_dataset dir1 dir2 ml1 ml2 rc1 rc2 v1 v2 :
  base_experiment_name (pipeline rc1) = base_experiment_name (pipeline rc2) ->
  (experiment_name (create_fewshot_pipeline dir1 ml1 rc1 v1)
   = experiment_name (create_fewshot_pipeline dir2 ml2 rc2 v2)
   <-> mmlu_dataset rc1 = mmlu_dataset rc2).
Proof.
  intros Hb. rewrite !experiment_name_of_pipeline, Hb. split.
  - intros [= H]. apply String.app_inj in H. now apply String.app_inj in H.
  - now intros ->.
Qed.

Lemma experiment_name_by_dataset_witness :
  experiment_name
    (create_fewshot_pipeline "guidance_programs" ws_client run_config "1700000000")
  = experiment_name
      (create_fewshot_pipeline "programs" ws_client tagged_run_config "1700000001").
Proof.
  exact (proj2 (experiment_name_by_dataset "guidance_programs" "programs"
                  ws_client ws_client run_config tagged_run_config
                  "1700000000" "1700000001" eq_refl) eq_refl).
Defined.
